(** * aioriak.datatypes.set: the client-side observed-remove Set

    A shallow embedding of [src/aioriak/datatypes/set.py].  The Python
    object is a record of its attributes, a method is a function from
    the object to an outcome (a value or a raised exception) paired with
    the object as the call leaves it, so that "the call fails and leaves
    the containers unchanged" is a statement about the embedding and not
    a by-product of its types. *)

From Stdlib Require Import ZArith List.
From Stdlib.Strings Require Import String Ascii Byte.
From stdpp Require Import base option countable gmap strings list sets.

Local Open Scope string_scope.

(** ** Python values

    The fragment of Python objects that can reach the methods of [Set]:
    non-iterables ([None], [int]), the two built-in sequences of
    scalars ([str], [bytes]) and the re-iterable containers [list] and
    [tuple].  On this fragment Python's [==] is structural equality
    ([bool] and [float], which would compare equal to an [int], are left
    out).  A [str] is a [string], its characters being 8-bit [ascii]
    codes.  One-shot iterators and generators are not part of it. *)

#[warnings="-register-all"]
Inductive pyval : Type :=
| PyNone
| PyInt (z : Z)
| PyStr (s : string)
| PyBytes (b : list byte)
| PyList (l : list pyval)
| PyTuple (l : list pyval).

Section pyval_induction.
Variable P : pyval → Prop.
Hypothesis HNone : P PyNone.
Hypothesis HInt : ∀ z, P (PyInt z).
Hypothesis HStr : ∀ s, P (PyStr s).
Hypothesis HBytes : ∀ b, P (PyBytes b).
Hypothesis HList : ∀ l, Forall P l → P (PyList l).
Hypothesis HTuple : ∀ l, Forall P l → P (PyTuple l).

Fixpoint pyval_nested_ind (v : pyval) : P v :=
  let all := fix all (l : list pyval) : Forall P l :=
    match l with
    | [] => @List.Forall_nil pyval P
    | x :: l' => @List.Forall_cons pyval P x l' (pyval_nested_ind x) (all l')
    end in
  match v with
  | PyNone => HNone
  | PyInt z => HInt z
  | PyStr s => HStr s
  | PyBytes b => HBytes b
  | PyList l => HList l (all l)
  | PyTuple l => HTuple l (all l)
  end.
End pyval_induction.

(** An injection into stdpp's generic trees gives [pyval] decidable
    equality and countability, hence finite sets of Python values. *)

Definition pyleaf : Type := Z + (string + string).

Fixpoint pyval_to_tree (v : pyval) : gen_tree pyleaf :=
  match v with
  | PyNone => GenNode 0 []
  | PyInt z => GenLeaf (inl z)
  | PyStr s => GenLeaf (inr (inl s))
  | PyBytes b => GenLeaf (inr (inr (string_of_list_byte b)))
  | PyList l => GenNode 1 (map pyval_to_tree l)
  | PyTuple l => GenNode 2 (map pyval_to_tree l)
  end.

Fixpoint tree_to_pyval (t : gen_tree pyleaf) : pyval :=
  match t with
  | GenLeaf (inl z) => PyInt z
  | GenLeaf (inr (inl s)) => PyStr s
  | GenLeaf (inr (inr s)) => PyBytes (list_byte_of_string s)
  | GenNode 1 ts => PyList (map tree_to_pyval ts)
  | GenNode 2 ts => PyTuple (map tree_to_pyval ts)
  | GenNode _ _ => PyNone
  end.

Lemma tree_to_pyval_to_tree (v : pyval) : tree_to_pyval (pyval_to_tree v) = v.
Proof.
  induction v as [ | z | s | b | l IH | l IH ] using pyval_nested_ind; simpl; try reflexivity.
  - by rewrite list_byte_of_string_of_list_byte.
  - f_equal. rewrite map_map. induction IH as [ | x l Hx _ IHl ]; simpl; congruence.
  - f_equal. rewrite map_map. induction IH as [ | x l Hx _ IHl ]; simpl; congruence.
Qed.

#[global] Instance pyval_eq_dec : EqDecision pyval.
Proof.
  intros x y.
  destruct (decide (pyval_to_tree x = pyval_to_tree y)) as [E | N].
  - left. rewrite <- (tree_to_pyval_to_tree x), <- (tree_to_pyval_to_tree y). by rewrite E.
  - right. intros ->. by apply N.
Defined.

#[global] Instance pyval_countable : Countable pyval :=
  inj_countable' pyval_to_tree tree_to_pyval tree_to_pyval_to_tree.

(** ** Exceptions and outcomes *)

Inductive exception : Type :=
| TypeError (msg : string)
| ContextRequired.

(** What evaluating a Python expression yields: a value, or a raised
    exception. *)
Inductive outcome (A : Type) : Type :=
| Returned (a : A)
| Raised (e : exception).
Arguments Returned {A} a.
Arguments Raised {A} e.

#[global] Instance outcome_ret : MRet outcome := λ A a, Returned a.
#[global] Instance outcome_bind : MBind outcome := λ A B k m,
  match m with
  | Returned a => k a
  | Raised e => Raised e
  end.

(** ** Built-ins used by the class *)

(** [isinstance(v, str)] *)
Definition isinstance_str (v : pyval) : bool :=
  match v with
  | PyStr _ => true
  | _ => false
  end.

(** [isinstance(v, collections.abc.Iterable)]: the type defines [__iter__]. *)
Definition isinstance_Iterable (v : pyval) : bool :=
  match v with
  | PyStr _ | PyBytes _ | PyList _ | PyTuple _ => true
  | PyNone | PyInt _ => false
  end.

(** The characters of a string, as Python's iteration hands them out:
    one-character strings. *)
Definition chars (s : string) : list pyval :=
  map (λ c, PyStr (String c EmptyString)) (list_ascii_of_string s).

(** The items a [for] loop over [v] visits, in order.  A [str] yields its
    characters as one-character strings, [bytes] yields integers. *)
Definition iter (v : pyval) : outcome (list pyval) :=
  match v with
  | PyStr s => Returned (chars s)
  | PyBytes b => Returned (map (λ x, PyInt (Z.of_N (Byte.to_N x))) b)
  | PyList l => Returned l
  | PyTuple l => Returned l
  | PyNone => Raised (TypeError "'NoneType' object is not iterable")
  | PyInt _ => Raised (TypeError "'int' object is not iterable")
  end.

(** [hash(v)] succeeds: a [list] is unhashable, a [tuple] is hashable when
    its components are. *)
Fixpoint hashable (v : pyval) : bool :=
  match v with
  | PyList _ => false
  | PyTuple l => forallb hashable l
  | _ => true
  end.

(** [frozenset(v)] *)
Definition frozenset (v : pyval) : outcome (gset pyval) :=
  items ← iter v;
  if forallb hashable items then Returned (list_to_set items)
  else Raised (TypeError "unhashable type: 'list'").

(** Truth value of a [set]: [len(s) != 0]. *)
Definition truthy (s : gset pyval) : bool := negb (size s =? 0)%nat.

(** ** The object *)

(** The attributes of a [Set] instance.  [_value] and [_context] belong to
    the base class [Datatype], [_adds] and [_removes] are created by
    [_post_init]. *)
Record RiakSet : Type := mkRiakSet {
  _value : gset pyval;
  _context : option (list byte);
  _adds : gset pyval;
  _removes : gset pyval
}.

(** A method call: the outcome, and the object as the call leaves it
    (an exception does not undo what was assigned before it). *)
Definition method (A : Type) : Type := RiakSet → outcome A * RiakSet.

#[global] Instance method_ret : MRet method := λ A a self, (Returned a, self).
#[global] Instance method_bind : MBind method := λ A B k m self,
  match m self with
  | (Returned a, self') => k a self'
  | (Raised e, self') => (Raised e, self')
  end.

Definition raise {A : Type} (e : exception) : method A := λ self, (Raised e, self).
Definition assign (f : RiakSet → RiakSet) : method unit := λ self, (Returned (), f self).

Definition type_name : string := "set".
Definition _type_error_msg : string := "Sets can only be iterables of strings".

(** Modelled from the spec: the property [value] of the base class
    [Datatype] (aioriak/datatypes/datatype.py, not among the sources):
    "returns the current immutable snapshot (read-only view; never
    includes staged mutations)". *)
Definition value (self : RiakSet) : gset pyval := _value self.

(** Modelled from the spec: [Datatype._require_context] (not among the
    sources): "fails with a ContextRequired error if context is absent". *)
Definition _require_context : method unit := λ self,
  match _context self with
  | None => (Raised ContextRequired, self)
  | Some _ => (Returned (), self)
  end.

Definition _post_init : method unit :=
  assign (λ self, mkRiakSet (_value self) (_context self) ∅ (_removes self)) ;;
  assign (λ self, mkRiakSet (_value self) (_context self) (_adds self) ∅).

Definition _default_value : gset pyval := ∅.

Definition _check_element (element : pyval) : method unit :=
  if negb (isinstance_str element) then raise (TypeError _type_error_msg)
  else mret ().

Definition add (element : pyval) : method unit :=
  _check_element element ;;
  assign (λ self, mkRiakSet (_value self) (_context self) ({[element]} ∪ _adds self) (_removes self)).

Definition discard (element : pyval) : method unit :=
  _check_element element ;;
  _require_context ;;
  assign (λ self, mkRiakSet (_value self) (_context self) (_adds self) ({[element]} ∪ _removes self)).

(** The operation is [None] or a [dict] with keys among ["adds"] and
    ["removes"]; [list(s)] enumerates a set in an unspecified order. *)
Definition to_op (self : RiakSet) : option (gmap string (list pyval)) :=
  if negb (truthy (_adds self)) && negb (truthy (_removes self)) then None
  else
    let changes : gmap string (list pyval) := ∅ in
    let changes := if truthy (_adds self)
                   then <["adds" := elements (_adds self)]> changes else changes in
    let changes := if truthy (_removes self)
                   then <["removes" := elements (_removes self)]> changes else changes in
    Some changes.

Definition modified (self : RiakSet) : bool :=
  (0 <? size (_removes self ∪ _adds self))%nat.

Definition __contains__ (self : RiakSet) (element : pyval) : outcome bool :=
  if hashable element then Returned (bool_decide (element ∈ value self))
  else Raised (TypeError "unhashable type: 'list'").

Definition __iter__ (self : RiakSet) : list pyval := elements (value self).

Definition __len__ (self : RiakSet) : nat := size (value self).

Definition _coerce_value (new_value : pyval) : outcome (gset pyval) :=
  frozenset new_value.

Definition _check_type (new_value : pyval) : outcome bool :=
  if negb (isinstance_Iterable new_value) then Returned false
  else
    items ← iter new_value;
    Returned ((fix loop (items : list pyval) : bool :=
                 match items with
                 | [] => true
                 | element :: rest =>
                     if negb (isinstance_str element) then false else loop rest
                 end) items).

(** Modelled from the spec: the constructor [Datatype.__init__] (not among
    the sources): an instance is "created with empty snapshot, no context,
    empty staging containers"; a snapshot and a context may be supplied
    (scenarios 2 and 6).  The staging containers are those of
    [_post_init]. *)
Definition __init__ (snapshot : option (gset pyval)) (context : option (list byte)) : RiakSet :=
  (_post_init (mkRiakSet (default _default_value snapshot) context ∅ ∅)).2.

(** ** Sequences of client calls

    The object is mutated in place: after a call that raised, a caller
    that catches the exception goes on with the object as that call left
    it. *)
Inductive call : Type :=
| Add (element : pyval)
| Discard (element : pyval).

Definition perform (c : call) : method unit :=
  match c with
  | Add element => add element
  | Discard element => discard element
  end.

Definition after (self : RiakSet) (c : call) : RiakSet := (perform c self).2.

Definition after_all (cs : list call) (self : RiakSet) : RiakSet := foldl after self cs.

Definition is_add (c : call) : bool := match c with Add _ => true | Discard _ => false end.
Definition is_discard (c : call) : bool := match c with Add _ => false | Discard _ => true end.
Definition argument (c : call) : pyval := match c with Add e | Discard e => e end.

(** The string arguments of a list of calls, as a set. *)
Definition staged (cs : list call) : gset pyval :=
  list_to_set (filter (λ e, isinstance_str e = true) (argument <$> cs)).

(** The strings passed by the [add] calls, respectively by the [discard]
    calls, of a list. *)
Definition staged_adds (cs : list call) : gset pyval :=
  staged (filter (λ c, is_add c = true) cs).
Definition staged_removes (cs : list call) : gset pyval :=
  staged (filter (λ c, is_discard c = true) cs).

(** Every member of a container is a [str]. *)
Definition only_strings (s : gset pyval) : Prop :=
  set_Forall (λ x, isinstance_str x = true) s.

#[global] Instance only_strings_dec (s : gset pyval) : Decision (only_strings s).
Proof. unfold only_strings. apply _. Defined.

#[global] Instance call_eq_dec : EqDecision call.
Proof. solve_decision. Defined.

(** ** Decidable equality, for evaluating the model on concrete objects *)

#[global] Instance byte_eq_dec : EqDecision byte := Byte.byte_eq_dec.

#[global] Instance exception_eq_dec : EqDecision exception.
Proof. solve_decision. Defined.

#[global] Instance outcome_eq_dec {A : Type} `{EqDecision A} : EqDecision (outcome A).
Proof. solve_decision. Defined.

#[global] Instance RiakSet_eq_dec : EqDecision RiakSet.
Proof.
  intros [v c a r] [v' c' a' r'].
  destruct (decide (v = v')); [ | right; congruence].
  destruct (decide (c = c')); [ | right; congruence].
  destruct (decide (a = a')); [ | right; congruence].
  destruct (decide (r = r')); [left; congruence | right; congruence].
Defined.

(** Settles a closed, decidable statement by evaluating its decision
    procedure. *)
Ltac by_compute := apply (bool_decide_unpack _); vm_compute; exact I.

(** Scenario 1 of the specification. *)
Example scenario1 :
  to_op (after_all [Add (PyStr "a"); Add (PyStr "b")] (__init__ None None))
  = Some {[ "adds" := elements ({[PyStr "a"; PyStr "b"]} : gset pyval) ]}.
Proof. by_compute. Qed.

(** Scenario 2: a removal staged against an observed snapshot. *)
Example scenario2 :
  to_op (after (__init__ (Some {[PyStr "a"]}) (Some [x63; x31])) (Discard (PyStr "a")))
  = Some {[ "removes" := [PyStr "a"] ]}.
Proof. by_compute. Qed.

(** Scenarios 3 and 4: the two failures. *)
Example scenario3 :
  discard (PyStr "a") (__init__ None None) = (Raised ContextRequired, __init__ None None).
Proof. by_compute. Qed.

Example scenario4 :
  add (PyInt 5) (__init__ None None)
  = (Raised (TypeError "Sets can only be iterables of strings"), __init__ None None).
Proof. by_compute. Qed.

(** Scenario 5: a fresh instance. *)
Example scenario5 :
  let s := __init__ None None in
  __len__ s = 0 ∧ __contains__ s (PyStr "x") = Returned false ∧
  modified s = false ∧ to_op s = None.
Proof. repeat split; by_compute. Qed.

(** ** Basic facts about the built-ins *)

Lemma truthy_true (s : gset pyval) : truthy s = true ↔ s ≠ ∅.
Proof.
  unfold truthy. rewrite negb_true_iff, Nat.eqb_neq.
  by rewrite size_empty_iff, leibniz_equiv_iff.
Qed.

Lemma truthy_false (s : gset pyval) : truthy s = false ↔ s = ∅.
Proof.
  unfold truthy. rewrite negb_false_iff, Nat.eqb_eq.
  by rewrite size_empty_iff, leibniz_equiv_iff.
Qed.

Lemma elements_nonempty (s : gset pyval) : s ≠ ∅ → elements s ≠ [].
Proof. intros Hs He. apply Hs, leibniz_equiv, elements_empty_inv. by rewrite He. Qed.

Lemma isinstance_str_true (v : pyval) : isinstance_str v = true ↔ ∃ s, v = PyStr s.
Proof.
  split.
  - destruct v; simpl; try discriminate. eauto.
  - by intros [s ->].
Qed.

Lemma union_singleton_nonempty_l (x : pyval) (s t : gset pyval) : ({[x]} ∪ s) ∪ t ≠ ∅.
Proof.
  intros H. apply (not_elem_of_empty (C := gset pyval) x). rewrite <- H.
  apply elem_of_union_l, elem_of_union_l, elem_of_singleton. reflexivity.
Qed.

(** ** What one call does *)

Lemma add_str (s : string) (self : RiakSet) :
  add (PyStr s) self =
  (Returned (), mkRiakSet (_value self) (_context self) ({[PyStr s]} ∪ _adds self) (_removes self)).
Proof. reflexivity. Qed.

Lemma add_not_str (element : pyval) (self : RiakSet) :
  isinstance_str element = false →
  add element self = (Raised (TypeError _type_error_msg), self).
Proof. intros H. unfold add, _check_element, mbind, method_bind, raise. by rewrite H. Qed.

Lemma discard_str (s : string) (self : RiakSet) :
  discard (PyStr s) self =
  match _context self with
  | Some _ => (Returned (), mkRiakSet (_value self) (_context self) (_adds self)
                                       ({[PyStr s]} ∪ _removes self))
  | None => (Raised ContextRequired, self)
  end.
Proof.
  unfold discard, _check_element, _require_context, mbind, method_bind, mret, method_ret, assign.
  simpl. by destruct (_context self) eqn:E; rewrite ?E.
Qed.

Lemma discard_not_str (element : pyval) (self : RiakSet) :
  isinstance_str element = false →
  discard element self = (Raised (TypeError _type_error_msg), self).
Proof. intros H. unfold discard, _check_element, mbind, method_bind, raise. by rewrite H. Qed.

Lemma after_Add (self : RiakSet) (element : pyval) :
  after self (Add element) =
  if isinstance_str element
  then mkRiakSet (_value self) (_context self) ({[element]} ∪ _adds self) (_removes self)
  else self.
Proof.
  unfold after. simpl. destruct (isinstance_str element) eqn:E.
  - apply isinstance_str_true in E as [s ->]. by rewrite add_str.
  - by rewrite add_not_str.
Qed.

Lemma after_Discard (self : RiakSet) (element : pyval) :
  after self (Discard element) =
  if isinstance_str element && bool_decide (is_Some (_context self))
  then mkRiakSet (_value self) (_context self) (_adds self) ({[element]} ∪ _removes self)
  else self.
Proof.
  unfold after. simpl. destruct (isinstance_str element) eqn:E.
  - apply isinstance_str_true in E as [s ->]. rewrite discard_str.
    destruct (_context self) as [ctx | ] eqn:E.
    + rewrite bool_decide_eq_true_2 by (by eexists). by rewrite <- E.
    + by rewrite bool_decide_eq_false_2 by (by intros [? ?]).
  - by rewrite discard_not_str.
Qed.

(** A call never touches the attributes of the base class. *)
Lemma after_frame (self : RiakSet) (c : call) :
  _value (after self c) = _value self ∧ _context (after self c) = _context self.
Proof.
  destruct c as [e | e].
  - rewrite after_Add. by destruct (isinstance_str e).
  - rewrite after_Discard. by case_match.
Qed.

Lemma after_all_frame (cs : list call) (self : RiakSet) :
  _value (after_all cs self) = _value self ∧ _context (after_all cs self) = _context self.
Proof.
  revert self. induction cs as [ | c cs IH ]; intros self; [done | ].
  unfold after_all in *. simpl. destruct (IH (after self c)) as [-> ->]. apply after_frame.
Qed.

Lemma staged_cons (c : call) (cs : list call) :
  staged (c :: cs) = (if isinstance_str (argument c) then {[argument c]} else ∅) ∪ staged cs.
Proof.
  unfold staged. rewrite fmap_cons, filter_cons.
  destruct (isinstance_str (argument c)) eqn:E; case_decide; try congruence.
  - by rewrite list_to_set_cons.
  - by rewrite (left_id_L ∅ (∪)).
Qed.

Lemma after_all_adds (cs : list call) (self : RiakSet) :
  forallb is_add cs = true →
  _adds (after_all cs self) = staged cs ∪ _adds self ∧
  _removes (after_all cs self) = _removes self.
Proof.
  revert self. induction cs as [ | c cs IH ]; intros self Hcs.
  - split; [ | done]. unfold staged. simpl. by rewrite (left_id_L ∅ (∪)).
  - simpl in Hcs. apply andb_true_iff in Hcs as [Hc Hcs].
    destruct c as [e | e]; [ | done].
    unfold after_all in *. simpl foldl. destruct (IH (after self (Add e)) Hcs) as [-> ->].
    rewrite staged_cons, after_Add. simpl argument.
    destruct (isinstance_str e); simpl; split; try done.
    + by rewrite (assoc_L (∪)), (comm_L (∪) (staged cs)).
    + by rewrite (left_id_L ∅ (∪)).
Qed.

Lemma after_all_discards (cs : list call) (self : RiakSet) :
  forallb is_discard cs = true →
  _adds (after_all cs self) = _adds self ∧
  _removes (after_all cs self) =
    (if bool_decide (is_Some (_context self)) then staged cs else ∅) ∪ _removes self.
Proof.
  revert self. induction cs as [ | c cs IH ]; intros self Hcs.
  - split; [done | ]. unfold staged. simpl. case_bool_decide; by rewrite (left_id_L ∅ (∪)).
  - simpl in Hcs. apply andb_true_iff in Hcs as [Hc Hcs].
    destruct c as [e | e]; [done | ].
    unfold after_all in *. simpl foldl. destruct (IH (after self (Discard e)) Hcs) as [-> ->].
    destruct (after_frame self (Discard e)) as [_ ->].
    rewrite staged_cons, after_Discard. simpl argument.
    destruct (isinstance_str e), (bool_decide (is_Some (_context self)));
      simpl; split; try done; rewrite ?(left_id_L ∅ (∪)); try done.
    by rewrite (assoc_L (∪)), (comm_L (∪) (staged cs)).
Qed.

(** ** The operation *)

Lemma to_op_unfold (self : RiakSet) :
  to_op self =
  match truthy (_adds self), truthy (_removes self) with
  | false, false => None
  | true, false => Some {[ "adds" := elements (_adds self) ]}
  | false, true => Some {[ "removes" := elements (_removes self) ]}
  | true, true => Some (<["removes" := elements (_removes self)]>
                          {[ "adds" := elements (_adds self) ]})
  end.
Proof. unfold to_op. by destruct (truthy (_adds self)), (truthy (_removes self)). Qed.

(** The entries of the operation, field by field. *)
Lemma to_op_lookup (self : RiakSet) (d : gmap string (list pyval)) :
  to_op self = Some d →
  d !! "adds" = (if truthy (_adds self) then Some (elements (_adds self)) else None) ∧
  d !! "removes" = (if truthy (_removes self) then Some (elements (_removes self)) else None) ∧
  ∀ k, k ≠ "adds" → k ≠ "removes" → d !! k = None.
Proof.
  rewrite to_op_unfold.
  destruct (truthy (_adds self)), (truthy (_removes self)); intros [= <-];
    repeat split; intros; by simplify_map_eq.
Qed.

(** A field built from a staging container [s] is there exactly when [s]
    is non-empty, and is then a non-empty list. *)
Lemma field_present_iff (s : gset pyval) :
  (is_Some (if truthy s then Some (elements s) else None) ↔ s ≠ ∅) ∧
  (if truthy s then Some (elements s) else None) ≠ Some [].
Proof.
  destruct (truthy s) eqn:E.
  - apply truthy_true in E. split.
    + split; [by intros _ | by eexists].
    + intros [= He]. by apply (elements_nonempty s).
  - apply truthy_false in E. split.
    + split; [by intros [? [=]] | by intros []].
    + discriminate.
Qed.

(** The list in such a field enumerates [s], each element once. *)
Lemma field_contents (s : gset pyval) :
  (∀ l, (if truthy s then Some (elements s) else None) = Some l →
        NoDup l ∧ list_to_set l = s) ∧
  ((if truthy s then Some (elements s) else None) = None → s = ∅).
Proof.
  destruct (truthy s) eqn:E; split; try discriminate.
  - intros l [= <-]. split; [apply NoDup_elements | apply list_to_set_elements_L].
  - intros _. by apply truthy_false.
Qed.

(** [_post_init] empties both staging containers and nothing else. *)
Lemma _post_init_staging (self : RiakSet) :
  _adds (_post_init self).2 = ∅ ∧ _removes (_post_init self).2 = ∅ ∧
  _value (_post_init self).2 = _value self ∧ _context (_post_init self).2 = _context self.
Proof. done. Qed.

(** ** Claims about [to_op] *)

(** C1: [to_op] returns [None] exactly when both staging containers are
    empty; in a returned delta the key "adds" is present exactly when
    [_adds] is non-empty and the key "removes" exactly when [_removes] is
    non-empty, and neither key is ever bound to the empty list. *)
Theorem to_op_none_iff_and_fields_present_iff (self : RiakSet) :
  (to_op self = None ↔ _adds self = ∅ ∧ _removes self = ∅) ∧
  (∀ d : gmap string (list pyval), to_op self = Some d →
     (is_Some (d !! "adds") ↔ _adds self ≠ ∅) ∧
     (is_Some (d !! "removes") ↔ _removes self ≠ ∅) ∧
     d !! "adds" ≠ Some [] ∧ d !! "removes" ≠ Some []).
Proof.
  split.
  - rewrite to_op_unfold, <- !truthy_false.
    destruct (truthy (_adds self)), (truthy (_removes self));
      (split; [done | by intros [? ?]]).
  - intros d Hd. destruct (to_op_lookup self d Hd) as (-> & -> & _).
    destruct (field_present_iff (_adds self)) as [? ?].
    destruct (field_present_iff (_removes self)) as [? ?]. tauto.
Qed.

Lemma to_op_none_iff_and_fields_present_iff_witness :
  let self := after_all [Add (PyStr "a")] (__init__ None None) in
  let d : gmap string (list pyval) := {[ "adds" := [PyStr "a"] ]} in
  to_op self = Some d ∧
  (is_Some (d !! "adds") ↔ _adds self ≠ ∅) ∧
  (is_Some (d !! "removes") ↔ _removes self ≠ ∅) ∧
  d !! "adds" ≠ Some [] ∧ d !! "removes" ≠ Some [].
Proof.
  split; [by_compute | ].
  apply (proj2 (to_op_none_iff_and_fields_present_iff
                  (after_all [Add (PyStr "a")] (__init__ None None)))).
  by_compute.
Defined.

(** C5: in a returned delta the elements of the "adds" list are exactly
    those of [_adds] and the elements of the "removes" list exactly those
    of [_removes] (each once; a key is missing only for an empty
    container).  Starting from the staging containers of [_post_init],
    after only [add] calls the delta has no "removes" key and its "adds"
    are the strings passed; after only [discard] calls with a context
    present it has no "adds" key and its "removes" are the strings
    passed. *)
Theorem to_op_fields_equal_staging :
  (∀ self d, to_op self = Some d →
     (∀ l, d !! "adds" = Some l → NoDup l ∧ list_to_set l = _adds self) ∧
     (∀ l, d !! "removes" = Some l → NoDup l ∧ list_to_set l = _removes self) ∧
     (d !! "adds" = None → _adds self = ∅) ∧
     (d !! "removes" = None → _removes self = ∅)) ∧
  (∀ self0 cs d, forallb is_add cs = true →
     to_op (after_all cs (_post_init self0).2) = Some d →
     d !! "removes" = None ∧
     ∃ l, d !! "adds" = Some l ∧ list_to_set l = staged cs ∧
          _adds (after_all cs (_post_init self0).2) = staged cs) ∧
  (∀ self0 cs d, forallb is_discard cs = true → is_Some (_context self0) →
     to_op (after_all cs (_post_init self0).2) = Some d →
     d !! "adds" = None ∧
     ∃ l, d !! "removes" = Some l ∧ list_to_set l = staged cs ∧
          _removes (after_all cs (_post_init self0).2) = staged cs).
Proof.
  assert (Hgen : ∀ self d, to_op self = Some d →
     (∀ l, d !! "adds" = Some l → NoDup l ∧ list_to_set l = _adds self) ∧
     (∀ l, d !! "removes" = Some l → NoDup l ∧ list_to_set l = _removes self) ∧
     (d !! "adds" = None → _adds self = ∅) ∧
     (d !! "removes" = None → _removes self = ∅)).
  { intros self d Hd. destruct (to_op_lookup self d Hd) as (-> & -> & _).
    destruct (field_contents (_adds self)) as [? ?].
    destruct (field_contents (_removes self)) as [? ?]. tauto. }
  split; [exact Hgen | split].
  - intros self0 cs d Hcs. generalize (_post_init_staging self0).
    generalize (_post_init self0).2. intros s0 (Ha0 & Hr0 & _) Hd.
    destruct (after_all_adds cs s0 Hcs) as [Ha Hr].
    rewrite Ha0, (right_id_L ∅ (∪)) in Ha. rewrite Hr0 in Hr.
    destruct (Hgen _ d Hd) as (Hadds & _ & _ & _).
    destruct (to_op_lookup _ d Hd) as (Hla & Hlr & _).
    rewrite Hr in Hlr. split; [exact Hlr | ].
    destruct (truthy (_adds (after_all cs s0))) eqn:Et.
    + eexists. split; [exact Hla | ]. split; [ | exact Ha].
      rewrite <- Ha. by apply Hadds.
    + exfalso. rewrite to_op_unfold, Et, Hr in Hd. discriminate.
  - intros self0 cs d Hcs. generalize (_post_init_staging self0).
    generalize (_post_init self0).2. intros s0 (Ha0 & Hr0 & _ & <-) Hctx Hd.
    destruct (after_all_discards cs s0 Hcs) as [Ha Hr].
    rewrite Hr0, bool_decide_eq_true_2, (right_id_L ∅ (∪)) in Hr by exact Hctx.
    rewrite Ha0 in Ha.
    destruct (Hgen _ d Hd) as (_ & Hrem & _ & _).
    destruct (to_op_lookup _ d Hd) as (Hla & Hlr & _).
    rewrite Ha in Hla. split; [exact Hla | ].
    destruct (truthy (_removes (after_all cs s0))) eqn:Et.
    + eexists. split; [exact Hlr | ]. split; [ | exact Hr].
      rewrite <- Hr. by apply Hrem.
    + exfalso. rewrite to_op_unfold, Et, Ha in Hd. discriminate.
Qed.

Lemma to_op_fields_equal_staging_witness :
  let self0 := mkRiakSet {[PyStr "z"]} (Some [x63]) {[PyStr "old"]} {[PyStr "z"]} in
  let cs := [Add (PyStr "a"); Add (PyInt 5); Add (PyStr "b")] in
  let d : gmap string (list pyval) := {[ "adds" := [PyStr "b"; PyStr "a"] ]} in
  forallb is_add cs = true ∧
  to_op (after_all cs (_post_init self0).2) = Some d ∧
  d !! "removes" = None ∧
  ∃ l, d !! "adds" = Some l ∧ list_to_set l = staged cs ∧
       _adds (after_all cs (_post_init self0).2) = staged cs.
Proof.
  split; [reflexivity | ]. split; [by_compute | ].
  apply (proj1 (proj2 to_op_fields_equal_staging)
           (mkRiakSet {[PyStr "z"]} (Some [x63]) {[PyStr "old"]} {[PyStr "z"]})
           [Add (PyStr "a"); Add (PyInt 5); Add (PyStr "b")]).
  - reflexivity.
  - by_compute.
Defined.

(** ** Claims about failing calls *)

(** C3: for an element that is not a [str], [add] and [discard] both raise
    the [TypeError] of [_check_element] and leave the object, hence both
    staging containers, as it was: nothing is staged before the check. *)
Theorem add_discard_reject_non_string (element : pyval) (self : RiakSet) :
  isinstance_str element = false →
  add element self = (Raised (TypeError _type_error_msg), self) ∧
  discard element self = (Raised (TypeError _type_error_msg), self) ∧
  _adds (add element self).2 = _adds self ∧
  _removes (add element self).2 = _removes self ∧
  _adds (discard element self).2 = _adds self ∧
  _removes (discard element self).2 = _removes self.
Proof.
  intros H. rewrite (add_not_str _ _ H), (discard_not_str _ _ H). done.
Qed.

Lemma add_discard_reject_non_string_witness :
  let self := mkRiakSet {[PyStr "a"]} (Some [x63]) {[PyStr "b"]} {[PyStr "a"]} in
  add (PyInt 5) self = (Raised (TypeError _type_error_msg), self) ∧
  discard (PyInt 5) self = (Raised (TypeError _type_error_msg), self) ∧
  _adds (add (PyInt 5) self).2 = _adds self ∧
  _removes (add (PyInt 5) self).2 = _removes self ∧
  _adds (discard (PyInt 5) self).2 = _adds self ∧
  _removes (discard (PyInt 5) self).2 = _removes self.
Proof.
  apply (add_discard_reject_non_string (PyInt 5)
           (mkRiakSet {[PyStr "a"]} (Some [x63]) {[PyStr "b"]} {[PyStr "a"]})).
  reflexivity.
Defined.

(** C9: in [discard] the element check comes first: for an element that is
    not a [str], on an instance without a context, the call raises
    [TypeError] and not [ContextRequired]. *)
Theorem discard_type_error_before_context (element : pyval) (self : RiakSet) :
  isinstance_str element = false → _context self = None →
  (discard element self).1 = Raised (TypeError _type_error_msg) ∧
  (discard element self).1 ≠ Raised ContextRequired.
Proof.
  intros H _. by rewrite (discard_not_str _ _ H).
Qed.

Lemma discard_type_error_before_context_witness :
  (discard (PyList [PyStr "a"]) (__init__ None None)).1 = Raised (TypeError _type_error_msg) ∧
  (discard (PyList [PyStr "a"]) (__init__ None None)).1 ≠ Raised ContextRequired.
Proof.
  apply (discard_type_error_before_context (PyList [PyStr "a"]) (__init__ None None));
    reflexivity.
Defined.

(** C2, as stated, fails: on an instance without a context, [discard(5)]
    raises the [TypeError] of the element check, not [ContextRequired]
    (the object is left as it was all the same). *)
Lemma discard_without_context_int_raises_TypeError :
  let self := mkRiakSet ∅ None ∅ ∅ in
  _context self = None ∧
  discard (PyInt 5) self = (Raised (TypeError _type_error_msg), self) ∧
  (discard (PyInt 5) self).1 ≠ Raised ContextRequired.
Proof. repeat split; by_compute. Qed.

(** C2, amended: on an instance without a context, [discard] of a string
    raises [ContextRequired]; [discard] of any element raises, and leaves
    the object, hence both staging containers, as it was: no removal is
    staged. *)
Theorem discard_without_context_fails (element : pyval) (self : RiakSet) :
  _context self = None →
  (isinstance_str element = true → (discard element self).1 = Raised ContextRequired) ∧
  (∃ e, (discard element self).1 = Raised e) ∧
  (discard element self).2 = self ∧
  _adds (discard element self).2 = _adds self ∧
  _removes (discard element self).2 = _removes self.
Proof.
  intros Hctx. destruct (isinstance_str element) eqn:E.
  - apply isinstance_str_true in E as [s ->]. rewrite discard_str, Hctx. simpl. repeat split; eauto.
  - rewrite (discard_not_str _ _ E). simpl. repeat split; eauto. done.
Qed.

Lemma discard_without_context_fails_witness :
  let self := mkRiakSet {[PyStr "a"]} None {[PyStr "b"]} ∅ in
  (discard (PyStr "a") self).1 = Raised ContextRequired ∧
  (discard (PyStr "a") self).2 = self.
Proof.
  destruct (discard_without_context_fails (PyStr "a")
              (mkRiakSet {[PyStr "a"]} None {[PyStr "b"]} ∅) eq_refl) as (H1 & _ & H2 & _).
  split; [apply H1; reflexivity | exact H2].
Defined.

(** ** Claims about staging *)

(** C8: [add] of a string is idempotent: the second call succeeds like the
    first and leaves the object exactly as the first call left it, so the
    membership of [_adds] is the same. *)
Theorem add_idempotent (x : string) (self : RiakSet) :
  let once := (add (PyStr x) self).2 in
  let twice := (add (PyStr x) once).2 in
  (add (PyStr x) self).1 = Returned () ∧ (add (PyStr x) once).1 = Returned () ∧
  twice = once ∧ (∀ y, y ∈ _adds twice ↔ y ∈ _adds once) ∧ PyStr x ∈ _adds once.
Proof.
  cbv zeta. rewrite (add_str x self). cbn [fst snd].
  rewrite add_str. cbn [fst snd _adds _value _context _removes].
  rewrite (assoc_L (∪)), (idemp_L (∪)). repeat split; try done.
  apply elem_of_union_l, elem_of_singleton. reflexivity.
Qed.

(** C6: [modified] is true exactly when the union of the two staging
    containers is non-empty; it is false once [_post_init] has run (so on a
    fresh instance), and true after any [add] or [discard] that returned. *)
Theorem modified_iff_staged :
  (∀ self, modified self = true ↔ _adds self ∪ _removes self ≠ ∅) ∧
  (∀ self, modified (_post_init self).2 = false) ∧
  (∀ snapshot context, modified (__init__ snapshot context) = false) ∧
  (∀ element self self', add element self = (Returned (), self') → modified self' = true) ∧
  (∀ element self self', discard element self = (Returned (), self') → modified self' = true).
Proof.
  assert (Hiff : ∀ self, modified self = true ↔ _adds self ∪ _removes self ≠ ∅).
  { intros self. unfold modified. rewrite Nat.ltb_lt, (comm_L (∪)).
    split.
    - intros Hlt Heq. rewrite Heq, size_empty in Hlt. lia.
    - intros Hne. destruct (size (_adds self ∪ _removes self)) eqn:Hsz; [ | lia].
      apply size_empty_iff, leibniz_equiv in Hsz. contradiction. }
  split; [exact Hiff | ].
  split; [intros self; reflexivity | ].
  split; [intros snapshot context; reflexivity | ].
  split.
  - intros element self self' H. apply Hiff.
    destruct (isinstance_str element) eqn:E.
    + apply isinstance_str_true in E as [s ->]. rewrite add_str in H.
      injection H as <-. simpl. apply union_singleton_nonempty_l.
    + by rewrite (add_not_str _ _ E) in H.
  - intros element self self' H. apply Hiff.
    destruct (isinstance_str element) eqn:E.
    + apply isinstance_str_true in E as [s ->]. rewrite discard_str in H.
      destruct (_context self); [ | done]. injection H as <-. simpl.
      rewrite (comm_L (∪)). apply union_singleton_nonempty_l.
    + by rewrite (discard_not_str _ _ E) in H.
Qed.

Lemma modified_iff_staged_witness :
  let self := __init__ None (Some [x63]) in
  let self' := mkRiakSet ∅ (Some [x63]) ∅ {[PyStr "a"]} in
  modified self = false ∧ discard (PyStr "a") self = (Returned (), self') ∧
  modified self' = true.
Proof.
  split; [apply (proj1 (proj2 (proj2 modified_iff_staged))) | ].
  assert (H : discard (PyStr "a") (__init__ None (Some [x63]))
              = (Returned (), mkRiakSet ∅ (Some [x63]) ∅ {[PyStr "a"]})) by by_compute.
  split; [exact H | ].
  exact (proj2 (proj2 (proj2 (proj2 modified_iff_staged))) _ _ _ H).
Defined.

Example add_then_modified :
  modified (after (__init__ None None) (Add (PyStr "a"))) = true ∧
  modified (after (__init__ None None) (Add (PyInt 5))) = false ∧
  modified (after (__init__ None None) (Discard (PyStr "a"))) = false.
Proof. repeat split; by_compute. Qed.

(** ** Claims about the read-only view *)

(** C4: [__contains__], [__iter__] and [__len__] are determined by the
    snapshot alone, and no sequence of [add] and [discard] calls, failed
    ones included, changes the snapshot: the three results are the same
    before and after. *)
Theorem view_unaffected_by_staging :
  (∀ self1 self2, value self1 = value self2 →
     (∀ element, __contains__ self1 element = __contains__ self2 element) ∧
     __iter__ self1 = __iter__ self2 ∧ __len__ self1 = __len__ self2) ∧
  (∀ (cs : list call) (self : RiakSet),
     value (after_all cs self) = value self ∧
     (∀ element, __contains__ (after_all cs self) element = __contains__ self element) ∧
     __iter__ (after_all cs self) = __iter__ self ∧
     __len__ (after_all cs self) = __len__ self).
Proof.
  assert (Hsnap : ∀ self1 self2, value self1 = value self2 →
     (∀ element, __contains__ self1 element = __contains__ self2 element) ∧
     __iter__ self1 = __iter__ self2 ∧ __len__ self1 = __len__ self2).
  { intros self1 self2 Hv. unfold __contains__, __iter__, __len__. by rewrite Hv. }
  split; [exact Hsnap | ].
  intros cs self.
  assert (Hv : value (after_all cs self) = value self)
    by (unfold value; apply after_all_frame).
  split; [exact Hv | by apply Hsnap].
Qed.

Lemma view_unaffected_by_staging_witness :
  let self := __init__ (Some {[PyStr "a"]}) (Some [x63]) in
  let self' := after_all [Add (PyStr "b"); Discard (PyStr "a"); Add (PyInt 1)] self in
  _adds self' ≠ _adds self ∧ _removes self' ≠ _removes self ∧
  __contains__ self' (PyStr "b") = Returned false ∧
  __contains__ self' (PyStr "a") = Returned true ∧
  __iter__ self' = [PyStr "a"] ∧ __len__ self' = 1.
Proof.
  split; [by_compute | ]. split; [by_compute | ].
  destruct (proj2 view_unaffected_by_staging
              [Add (PyStr "b"); Discard (PyStr "a"); Add (PyInt 1)]
              (__init__ (Some {[PyStr "a"]}) (Some [x63]))) as (_ & Hc & Hi & Hl).
  rewrite !Hc, Hi, Hl. repeat split; by_compute.
Defined.

(** ** Claims about snapshot validation and coercion *)

Lemma check_loop_Forall (items : list pyval) :
  (fix loop (items : list pyval) : bool :=
     match items with
     | [] => true
     | element :: rest => if negb (isinstance_str element) then false else loop rest
     end) items = true ↔ Forall (λ element, isinstance_str element = true) items.
Proof.
  induction items as [ | element rest IH ]; [done | ].
  rewrite Forall_cons. destruct (isinstance_str element); simpl.
  - rewrite IH. tauto.
  - split; [done | by intros [? _]].
Qed.

Lemma iter_Iterable (v : pyval) :
  isinstance_Iterable v = true ↔ ∃ items, iter v = Returned items.
Proof.
  destruct v; simpl; split; try done; try (by eexists); by intros [? ?].
Qed.

Lemma str_hashable (items : list pyval) :
  Forall (λ element, isinstance_str element = true) items → forallb hashable items = true.
Proof.
  induction 1 as [ | element rest He _ IH ]; [done | ].
  simpl. rewrite IH. by destruct element.
Qed.

Lemma _check_type_true_iff (new_value : pyval) :
  _check_type new_value = Returned true ↔
  isinstance_Iterable new_value = true ∧
  ∃ items, iter new_value = Returned items ∧
           Forall (λ element, isinstance_str element = true) items.
Proof.
  unfold _check_type. destruct (isinstance_Iterable new_value) eqn:Hit; simpl.
  - apply iter_Iterable in Hit as [items ->]. simpl. split.
    + intros [= H]. apply check_loop_Forall in H. eauto.
    + intros (_ & items' & [= <-] & H). apply check_loop_Forall in H. by rewrite H.
  - split; [done | by intros [? _]].
Qed.

(** C7: [_check_type] always answers, and answers [True] exactly for an
    iterable all of whose items are strings; for such a value
    [_coerce_value] returns the frozen set of these items. *)
Theorem check_type_accepts_iterables_of_strings (new_value : pyval) :
  (∃ b, _check_type new_value = Returned b) ∧
  (_check_type new_value = Returned true ↔
     isinstance_Iterable new_value = true ∧
     ∃ items, iter new_value = Returned items ∧
              Forall (λ element, isinstance_str element = true) items) ∧
  (_check_type new_value = Returned true →
     ∃ items, iter new_value = Returned items ∧
              _coerce_value new_value = Returned (list_to_set items) ∧
              ∀ x, x ∈ (list_to_set items : gset pyval) ↔ x ∈ items).
Proof.
  pose proof (_check_type_true_iff new_value) as Hiff.
  split; [ | split; [exact Hiff | ]].
  - unfold _check_type. destruct (isinstance_Iterable new_value) eqn:Hit; simpl.
    + apply iter_Iterable in Hit as [items ->]. simpl. eauto.
    + eauto.
  - intros H. apply Hiff in H as (_ & items & Hitems & Hstr).
    exists items. split; [exact Hitems | ]. split.
    + unfold _coerce_value, frozenset. rewrite Hitems. simpl. by rewrite str_hashable.
    + intros x. apply elem_of_list_to_set.
Qed.

Lemma check_type_accepts_iterables_of_strings_witness :
  _check_type (PyList [PyStr "a"; PyStr "b"; PyStr "a"]) = Returned true ∧
  _check_type (PyTuple [PyStr "a"; PyInt 1]) = Returned false ∧
  _check_type (PyBytes [x61]) = Returned false ∧
  _check_type (PyInt 7) = Returned false ∧
  ∃ items, iter (PyList [PyStr "a"; PyStr "b"; PyStr "a"]) = Returned items ∧
           _coerce_value (PyList [PyStr "a"; PyStr "b"; PyStr "a"]) = Returned (list_to_set items) ∧
           ∀ x, x ∈ (list_to_set items : gset pyval) ↔ x ∈ items.
Proof.
  split; [reflexivity | ]. split; [reflexivity | ].
  split; [reflexivity | ]. split; [reflexivity | ].
  apply (proj2 (proj2 (check_type_accepts_iterables_of_strings
                         (PyList [PyStr "a"; PyStr "b"; PyStr "a"])))).
  reflexivity.
Defined.

Lemma chars_all_str (s : string) :
  Forall (λ element, isinstance_str element = true) (chars s).
Proof.
  unfold chars. apply Forall_forall. intros x Hx.
  apply list_elem_of_In, in_map_iff in Hx as (c & <- & _). done.
Qed.

(** C10: a bare string passes [_check_type], and [_coerce_value] turns it
    into the set of its characters: the members are the one-character
    strings that occur in it, so a string of any other length is not a
    member of its own coercion. *)
Theorem bare_string_is_coerced_to_its_characters (s : string) :
  _check_type (PyStr s) = Returned true ∧
  _coerce_value (PyStr s) = Returned (list_to_set (chars s)) ∧
  (∀ x, x ∈ (list_to_set (chars s) : gset pyval) ↔
        ∃ c, x = PyStr (String c EmptyString) ∧ In c (list_ascii_of_string s)) ∧
  (String.length s ≠ 1 → PyStr s ∉ (list_to_set (chars s) : gset pyval)).
Proof.
  assert (Hmem : ∀ x, x ∈ (list_to_set (chars s) : gset pyval) ↔
        ∃ c, x = PyStr (String c EmptyString) ∧ In c (list_ascii_of_string s)).
  { intros x. rewrite elem_of_list_to_set, list_elem_of_In. unfold chars.
    rewrite in_map_iff. split; intros (c & ? & ?); eauto. }
  repeat split.
  - apply _check_type_true_iff.
    split; [done | ]. exists (chars s). split; [done | apply chars_all_str].
  - unfold _coerce_value, frozenset. simpl.
    by rewrite (str_hashable _ (chars_all_str s)).
  - by apply Hmem.
  - by apply Hmem.
  - intros Hlen Hin. apply Hmem in Hin as (c & [= ->] & _). by apply Hlen.
Qed.

Example coerce_bare_string :
  _check_type (PyStr "aba") = Returned true ∧
  _coerce_value (PyStr "aba") = Returned {[PyStr "a"; PyStr "b"]} ∧
  _coerce_value (PyList [PyStr "aba"]) = Returned {[PyStr "aba"]} ∧
  _coerce_value (PyBytes [x61]) = Returned {[PyInt 97]} ∧
  _coerce_value (PyInt 7) = Raised (TypeError "'int' object is not iterable").
Proof. repeat split; by_compute. Qed.

Lemma bare_string_is_coerced_to_its_characters_witness :
  String.length "ab" ≠ 1 ∧ PyStr "ab" ∉ (list_to_set (chars "ab") : gset pyval).
Proof.
  split; [by_compute | ].
  apply (proj2 (proj2 (proj2 (bare_string_is_coerced_to_its_characters "ab")))).
  by_compute.
Defined.

(** * Further properties of the class *)

(** ** Sequences of calls in closed form *)

Lemma union_swap (a b c : gset pyval) : a ∪ (b ∪ c) = (b ∪ a) ∪ c.
Proof. by rewrite (assoc_L (∪)), (comm_L (∪) a b). Qed.

Lemma staged_filter_cons (p : call → bool) (c : call) (cs : list call) :
  staged (filter (λ c, p c = true) (c :: cs)) =
  (if p c && isinstance_str (argument c) then {[argument c]} else ∅)
    ∪ staged (filter (λ c, p c = true) cs).
Proof.
  rewrite filter_cons. destruct (p c) eqn:E; case_decide; try congruence; simpl.
  - apply staged_cons.
  - by rewrite (left_id_L ∅ (∪)).
Qed.

(** The object after a sequence of calls, in closed form. *)
Lemma after_all_unfold (cs : list call) (self : RiakSet) :
  after_all cs self =
  mkRiakSet (_value self) (_context self)
            (staged_adds cs ∪ _adds self)
            ((if bool_decide (is_Some (_context self)) then staged_removes cs else ∅)
               ∪ _removes self).
Proof.
  revert self. induction cs as [ | c cs IH ]; intros self.
  - unfold staged_adds, staged_removes, staged. simpl.
    case_bool_decide; rewrite !(left_id_L ∅ (∪)); by destruct self.
  - unfold after_all in *. simpl foldl. rewrite IH.
    destruct (after_frame self c) as [-> ->].
    unfold staged_adds, staged_removes. rewrite !staged_filter_cons.
    destruct c as [e | e]; simpl argument; simpl is_add; simpl is_discard;
      cbn [andb]; rewrite ?(left_id_L ∅ (∪)).
    + rewrite after_Add. destruct (isinstance_str e); simpl.
      * f_equal. apply union_swap.
      * by rewrite (left_id_L ∅ (∪)).
    + rewrite after_Discard.
      destruct (isinstance_str e), (bool_decide (is_Some (_context self)));
        simpl; rewrite ?(left_id_L ∅ (∪)); try done.
      f_equal. apply union_swap.
Qed.

Lemma elem_of_staged_adds (x : pyval) (cs : list call) :
  x ∈ staged_adds cs ↔ isinstance_str x = true ∧ Add x ∈ cs.
Proof.
  unfold staged_adds, staged.
  rewrite elem_of_list_to_set, list_elem_of_filter, list_elem_of_fmap. split.
  - intros (Hs & c & -> & Hc). apply list_elem_of_filter in Hc as [Ha Hc].
    by destruct c.
  - intros [Hs Hc]. split; [done | ]. exists (Add x). split; [done | ].
    by apply list_elem_of_filter.
Qed.

Lemma elem_of_staged_removes (x : pyval) (cs : list call) :
  x ∈ staged_removes cs ↔ isinstance_str x = true ∧ Discard x ∈ cs.
Proof.
  unfold staged_removes, staged.
  rewrite elem_of_list_to_set, list_elem_of_filter, list_elem_of_fmap. split.
  - intros (Hs & c & -> & Hc). apply list_elem_of_filter in Hc as [Ha Hc].
    by destruct c.
  - intros [Hs Hc]. split; [done | ]. exists (Discard x). split; [done | ].
    by apply list_elem_of_filter.
Qed.

Lemma elem_of_adds_after_all (x : pyval) (cs : list call) (self : RiakSet) :
  x ∈ _adds (after_all cs self) ↔
  x ∈ _adds self ∨ (isinstance_str x = true ∧ Add x ∈ cs).
Proof.
  rewrite after_all_unfold. simpl. rewrite elem_of_union, elem_of_staged_adds. tauto.
Qed.

Lemma elem_of_removes_after_all (x : pyval) (cs : list call) (self : RiakSet) :
  x ∈ _removes (after_all cs self) ↔
  x ∈ _removes self ∨
  (is_Some (_context self) ∧ isinstance_str x = true ∧ Discard x ∈ cs).
Proof.
  rewrite after_all_unfold. simpl. rewrite elem_of_union. case_bool_decide.
  - rewrite elem_of_staged_removes. tauto.
  - rewrite elem_of_empty. tauto.
Qed.

(** X1: after any sequence of [add] and [discard] calls, failed ones
    included, the snapshot and the context are what they were; the members
    of [_adds] are its former members and the strings passed to [add]; the
    members of [_removes] are its former members and, when the object has
    a context, the strings passed to [discard]. *)
Theorem staging_after_calls (cs : list call) (self : RiakSet) :
  _value (after_all cs self) = _value self ∧
  _context (after_all cs self) = _context self ∧
  (∀ x, x ∈ _adds (after_all cs self) ↔
        x ∈ _adds self ∨ (isinstance_str x = true ∧ Add x ∈ cs)) ∧
  (∀ x, x ∈ _removes (after_all cs self) ↔
        x ∈ _removes self ∨
        (is_Some (_context self) ∧ isinstance_str x = true ∧ Discard x ∈ cs)).
Proof.
  destruct (after_all_frame cs self) as [Hv Hc].
  split; [exact Hv | ]. split; [exact Hc | ]. split.
  - intros x. apply elem_of_adds_after_all.
  - intros x. apply elem_of_removes_after_all.
Qed.

(** X2: what is staged depends on which calls were made, not on their
    order or on how often each was made: two sequences with the same
    calls leave the object in the same state. *)
Theorem staging_ignores_order_and_repetition (cs cs' : list call) (self : RiakSet) :
  cs ⊆ cs' → cs' ⊆ cs → after_all cs self = after_all cs' self.
Proof.
  intros H1 H2. rewrite !after_all_unfold.
  assert (Ha : staged_adds cs = staged_adds cs').
  { apply set_eq. intros x. rewrite !elem_of_staged_adds.
    split; intros [? ?]; (split; [done | ]); [by apply H1 | by apply H2]. }
  assert (Hr : staged_removes cs = staged_removes cs').
  { apply set_eq. intros x. rewrite !elem_of_staged_removes.
    split; intros [? ?]; (split; [done | ]); [by apply H1 | by apply H2]. }
  by rewrite Ha, Hr.
Qed.

Lemma staging_ignores_order_and_repetition_witness :
  let cs := [Add (PyStr "a"); Discard (PyStr "b"); Add (PyStr "a"); Add (PyInt 1)] in
  let cs' := [Add (PyInt 1); Discard (PyStr "b"); Add (PyStr "a")] in
  let self := mkRiakSet {[PyStr "b"]} (Some [x63]) ∅ ∅ in
  after_all cs self = after_all cs' self ∧
  after_all cs self = mkRiakSet {[PyStr "b"]} (Some [x63]) {[PyStr "a"]} {[PyStr "b"]}.
Proof.
  split; [ | by_compute].
  apply (staging_ignores_order_and_repetition
           [Add (PyStr "a"); Discard (PyStr "b"); Add (PyStr "a"); Add (PyInt 1)]
           [Add (PyInt 1); Discard (PyStr "b"); Add (PyStr "a")]); by_compute.
Defined.

(** X3: the staging containers only ever hold strings: if they do before a
    sequence of calls (as after [_post_init]), they do after it, and every
    list of the operation that [to_op] then returns holds strings only. *)
Theorem staged_elements_are_strings (cs : list call) (self : RiakSet) :
  only_strings (_adds self) → only_strings (_removes self) →
  only_strings (_adds (after_all cs self)) ∧
  only_strings (_removes (after_all cs self)) ∧
  ∀ d k l, to_op (after_all cs self) = Some d → d !! k = Some l →
           Forall (λ x, isinstance_str x = true) l.
Proof.
  intros Ha Hr.
  assert (Ha' : only_strings (_adds (after_all cs self))).
  { intros x Hx. apply elem_of_adds_after_all in Hx as [Hx | [Hx _]]; [by apply Ha | done]. }
  assert (Hr' : only_strings (_removes (after_all cs self))).
  { intros x Hx. apply elem_of_removes_after_all in Hx as [Hx | (_ & Hx & _)];
      [by apply Hr | done]. }
  split; [exact Ha' | ]. split; [exact Hr' | ].
  intros d k l Hd Hk. destruct (to_op_lookup _ d Hd) as (Hla & Hlr & Hother).
  apply Forall_forall. intros x Hx.
  destruct (decide (k = "adds")) as [-> | Hn1].
  - rewrite Hk in Hla. destruct (truthy (_adds (after_all cs self))); [ | done].
    injection Hla as ->.
    apply Ha'. by apply elem_of_elements.
  - destruct (decide (k = "removes")) as [-> | Hn2].
    + rewrite Hk in Hlr. destruct (truthy (_removes (after_all cs self))); [ | done].
      injection Hlr as ->.
      apply Hr'. by apply elem_of_elements.
    + rewrite (Hother k Hn1 Hn2) in Hk. done.
Qed.

Lemma staged_elements_are_strings_witness :
  let cs := [Add (PyStr "a"); Add (PyInt 1); Discard (PyStr "b"); Discard (PyList [])] in
  let self := (_post_init (mkRiakSet ∅ (Some [x63]) {[PyInt 3]} ∅)).2 in
  only_strings (_adds (after_all cs self)) ∧
  only_strings (_removes (after_all cs self)) ∧
  ∀ d k l, to_op (after_all cs self) = Some d → d !! k = Some l →
           Forall (λ x, isinstance_str x = true) l.
Proof.
  apply (staged_elements_are_strings
           [Add (PyStr "a"); Add (PyInt 1); Discard (PyStr "b"); Discard (PyList [])]
           (_post_init (mkRiakSet ∅ (Some [x63]) {[PyInt 3]} ∅)).2); by_compute.
Defined.

(** X4: what was staged reaches the operation and stays there: once
    [add(x)] has returned, whatever calls follow, [to_op] returns a delta
    whose "adds" list contains [x]; likewise for [discard(x)] and
    "removes".  The snapshot plays no part: [x] may or may not be in it. *)
Theorem staged_element_reaches_operation (x : pyval) (self self' : RiakSet) (cs : list call) :
  (add x self = (Returned (), self') →
     ∃ d l, to_op (after_all cs self') = Some d ∧ d !! "adds" = Some l ∧ x ∈ l) ∧
  (discard x self = (Returned (), self') →
     ∃ d l, to_op (after_all cs self') = Some d ∧ d !! "removes" = Some l ∧ x ∈ l).
Proof.
  split; intros H.
  - assert (Hx : x ∈ _adds (after_all cs self')).
    { apply elem_of_adds_after_all. left.
      destruct (isinstance_str x) eqn:E.
      - apply isinstance_str_true in E as [s ->]. rewrite add_str in H.
        injection H as <-. simpl. apply elem_of_union_l, elem_of_singleton. reflexivity.
      - by rewrite (add_not_str _ _ E) in H. }
    assert (Ht : truthy (_adds (after_all cs self')) = true).
    { apply truthy_true. intros He. rewrite He in Hx. by apply elem_of_empty in Hx. }
    destruct (to_op (after_all cs self')) as [d | ] eqn:Hd.
    + destruct (to_op_lookup _ d Hd) as (Hla & _). rewrite Ht in Hla.
      exists d, (elements (_adds (after_all cs self'))).
      split; [done | ]. split; [done | ]. by apply elem_of_elements.
    + rewrite to_op_unfold, Ht in Hd.
      by destruct (truthy (_removes (after_all cs self'))).
  - assert (Hx : x ∈ _removes (after_all cs self')).
    { apply elem_of_removes_after_all. left.
      destruct (isinstance_str x) eqn:E.
      - apply isinstance_str_true in E as [s ->]. rewrite discard_str in H.
        destruct (_context self); [ | done].
        injection H as <-. simpl. apply elem_of_union_l, elem_of_singleton. reflexivity.
      - by rewrite (discard_not_str _ _ E) in H. }
    assert (Ht : truthy (_removes (after_all cs self')) = true).
    { apply truthy_true. intros He. rewrite He in Hx. by apply elem_of_empty in Hx. }
    destruct (to_op (after_all cs self')) as [d | ] eqn:Hd.
    + destruct (to_op_lookup _ d Hd) as (_ & Hlr & _). rewrite Ht in Hlr.
      exists d, (elements (_removes (after_all cs self'))).
      split; [done | ]. split; [done | ]. by apply elem_of_elements.
    + rewrite to_op_unfold, Ht in Hd.
      by destruct (truthy (_adds (after_all cs self'))).
Qed.

Lemma staged_element_reaches_operation_witness :
  let self := mkRiakSet {[PyStr "a"]} (Some [x63]) ∅ ∅ in
  let self' := mkRiakSet {[PyStr "a"]} (Some [x63]) {[PyStr "a"]} ∅ in
  let cs := [Discard (PyStr "a"); Add (PyStr "b")] in
  add (PyStr "a") self = (Returned (), self') ∧
  ∃ d l, to_op (after_all cs self') = Some d ∧ d !! "adds" = Some l ∧ PyStr "a" ∈ l.
Proof.
  assert (H : add (PyStr "a") (mkRiakSet {[PyStr "a"]} (Some [x63]) ∅ ∅)
              = (Returned (), mkRiakSet {[PyStr "a"]} (Some [x63]) {[PyStr "a"]} ∅))
    by by_compute.
  split; [exact H | ].
  exact (proj1 (staged_element_reaches_operation (PyStr "a") _ _
                  [Discard (PyStr "a"); Add (PyStr "b")]) H).
Defined.

(** ** When calls return *)

(** X5: [add] returns exactly for strings, whether or not the string is in
    the snapshot or already staged; [discard] returns exactly for strings
    on an object with a context, whether or not the string is in the
    snapshot.  A call that raises leaves the object as it was. *)
Theorem calls_return_iff (element : pyval) (self : RiakSet) :
  ((add element self).1 = Returned () ↔ isinstance_str element = true) ∧
  ((discard element self).1 = Returned () ↔
     isinstance_str element = true ∧ is_Some (_context self)) ∧
  (∀ e, (add element self).1 = Raised e → (add element self).2 = self) ∧
  (∀ e, (discard element self).1 = Raised e → (discard element self).2 = self).
Proof.
  destruct (isinstance_str element) eqn:E.
  - apply isinstance_str_true in E as [s ->]. rewrite add_str, discard_str.
    destruct (_context self) as [ctx | ]; simpl.
    + repeat split; try done.
    + repeat split; try done. by intros [_ [? ?]].
  - rewrite (add_not_str _ _ E), (discard_not_str _ _ E). simpl.
    repeat split; try done. by intros [? _].
Qed.

(** X6: an [add] and a [discard] of the same string do not cancel: on an
    object with a context, after any sequence of calls that has both, the
    delta has both fields and the string is in both lists. *)
Theorem add_and_discard_do_not_cancel (x : string) (cs : list call) (self : RiakSet) :
  is_Some (_context self) → Add (PyStr x) ∈ cs → Discard (PyStr x) ∈ cs →
  ∃ d la lr, to_op (after_all cs self) = Some d ∧
             d !! "adds" = Some la ∧ d !! "removes" = Some lr ∧
             PyStr x ∈ la ∧ PyStr x ∈ lr.
Proof.
  intros Hctx Hadd Hdis.
  assert (Ha : PyStr x ∈ _adds (after_all cs self))
    by (apply elem_of_adds_after_all; right; done).
  assert (Hr : PyStr x ∈ _removes (after_all cs self))
    by (apply elem_of_removes_after_all; right; done).
  assert (Hta : truthy (_adds (after_all cs self)) = true).
  { apply truthy_true. intros He. rewrite He in Ha. by apply elem_of_empty in Ha. }
  assert (Htr : truthy (_removes (after_all cs self)) = true).
  { apply truthy_true. intros He. rewrite He in Hr. by apply elem_of_empty in Hr. }
  destruct (to_op (after_all cs self)) as [d | ] eqn:Hd.
  - destruct (to_op_lookup _ d Hd) as (Hla & Hlr & _). rewrite Hta in Hla. rewrite Htr in Hlr.
    exists d, (elements (_adds (after_all cs self))), (elements (_removes (after_all cs self))).
    repeat split; try done; by apply elem_of_elements.
  - by rewrite to_op_unfold, Hta, Htr in Hd.
Qed.

Lemma add_and_discard_do_not_cancel_witness :
  let cs := [Discard (PyStr "a"); Add (PyStr "b"); Add (PyStr "a")] in
  let self := mkRiakSet {[PyStr "a"]} (Some [x63]) ∅ ∅ in
  ∃ d la lr, to_op (after_all cs self) = Some d ∧
             d !! "adds" = Some la ∧ d !! "removes" = Some lr ∧
             PyStr "a" ∈ la ∧ PyStr "a" ∈ lr.
Proof.
  apply (add_and_discard_do_not_cancel "a"
           [Discard (PyStr "a"); Add (PyStr "b"); Add (PyStr "a")]
           (mkRiakSet {[PyStr "a"]} (Some [x63]) ∅ ∅)); by_compute.
Defined.

(** X7: [modified] and [to_op] agree: [modified] is true exactly when
    [to_op] returns a delta rather than [None]; a delta is never the empty
    dict and has no key besides "adds" and "removes". *)
Theorem modified_iff_to_op_is_delta (self : RiakSet) :
  (modified self = true ↔ is_Some (to_op self)) ∧
  (modified self = false ↔ to_op self = None) ∧
  (∀ d, to_op self = Some d →
        d ≠ ∅ ∧ dom d ⊆ ({["adds"; "removes"]} : gset string)).
Proof.
  assert (Hm : modified self = negb (negb (truthy (_adds self)) && negb (truthy (_removes self)))).
  { unfold modified.
    destruct (truthy (_adds self)) eqn:Ea, (truthy (_removes self)) eqn:Er; simpl.
    - apply Nat.ltb_lt. apply truthy_true in Ea.
      destruct (size (_removes self ∪ _adds self)) eqn:Hs; [ | lia].
      apply size_empty_iff, leibniz_equiv in Hs. apply empty_union_L in Hs as [_ ?]. done.
    - apply Nat.ltb_lt. apply truthy_true in Ea.
      destruct (size (_removes self ∪ _adds self)) eqn:Hs; [ | lia].
      apply size_empty_iff, leibniz_equiv in Hs. apply empty_union_L in Hs as [_ ?]. done.
    - apply Nat.ltb_lt. apply truthy_true in Er.
      destruct (size (_removes self ∪ _adds self)) eqn:Hs; [ | lia].
      apply size_empty_iff, leibniz_equiv in Hs. apply empty_union_L in Hs as [? _]. done.
    - apply truthy_false in Ea, Er. rewrite Ea, Er, (left_id_L ∅ (∪)), size_empty. done. }
  split; [ | split].
  - rewrite Hm, to_op_unfold.
    destruct (truthy (_adds self)), (truthy (_removes self)); simpl;
      (split; [intros ?; try done; by eexists | intros [? ?]; done]).
  - rewrite Hm, to_op_unfold.
    destruct (truthy (_adds self)), (truthy (_removes self)); simpl; split; done.
  - intros d Hd. destruct (to_op_lookup self d Hd) as (Hla & Hlr & Hother). split.
    + intros ->. rewrite lookup_empty in Hla, Hlr. rewrite to_op_unfold in Hd.
      by destruct (truthy (_adds self)), (truthy (_removes self)).
    + intros k Hk. apply elem_of_dom in Hk as [l Hl].
      apply elem_of_union. rewrite !elem_of_singleton.
      destruct (decide (k = "adds")) as [-> | Hn1]; [by left | ].
      destruct (decide (k = "removes")) as [-> | Hn2]; [by right | ].
      by rewrite (Hother k Hn1 Hn2) in Hl.
Qed.

(** ** Validation, coercion and the view *)

Lemma size_list_to_set_le (l : list pyval) :
  (size (list_to_set l : gset pyval) ≤ List.length l)%nat.
Proof.
  induction l as [ | x l IH ].
  - rewrite list_to_set_nil, size_empty. done.
  - rewrite list_to_set_cons, size_union_alt, size_singleton. cbn [List.length].
    pose proof (subseteq_size (list_to_set l ∖ {[x]}) (list_to_set l : gset pyval)) as Hle.
    assert (Hsub : (list_to_set l : gset pyval) ∖ {[x]} ⊆ list_to_set l).
    { intros y Hy. by apply elem_of_difference in Hy as [? _]. }
    specialize (Hle Hsub). lia.
Qed.

(** X8: validation guards coercion: a value that [_check_type] accepts is
    coerced without an exception, the resulting snapshot holds strings
    only, and it has at most as many members as the value has items
    (exactly as many when the items are distinct). *)
Theorem accepted_value_coerces_to_strings (new_value : pyval) :
  _check_type new_value = Returned true →
  ∃ fs items, iter new_value = Returned items ∧
              _coerce_value new_value = Returned fs ∧
              only_strings fs ∧ (size fs ≤ List.length items)%nat ∧
              (NoDup items → size fs = List.length items).
Proof.
  intros H. apply _check_type_true_iff in H as (_ & items & Hitems & Hstr).
  exists (list_to_set items), items. split; [exact Hitems | ]. split.
  - unfold _coerce_value, frozenset. rewrite Hitems. simpl. by rewrite str_hashable.
  - split; [ | split].
    + intros x Hx. apply elem_of_list_to_set in Hx.
      by apply (proj1 (Forall_forall _ _) Hstr).
    + apply size_list_to_set_le.
    + apply size_list_to_set.
Qed.

Lemma accepted_value_coerces_to_strings_witness :
  ∃ fs items, iter (PyTuple [PyStr "a"; PyStr "b"; PyStr "a"]) = Returned items ∧
              _coerce_value (PyTuple [PyStr "a"; PyStr "b"; PyStr "a"]) = Returned fs ∧
              only_strings fs ∧ (size fs ≤ List.length items)%nat ∧
              (NoDup items → size fs = List.length items).
Proof.
  apply (accepted_value_coerces_to_strings (PyTuple [PyStr "a"; PyStr "b"; PyStr "a"])).
  reflexivity.
Defined.

(** X9: an empty iterable of any type (the empty [str], [bytes], [list]
    or [tuple]) is accepted by [_check_type], whose loop then checks
    nothing, and is coerced to the default value, the empty frozenset. *)
Theorem empty_iterable_is_accepted (new_value : pyval) :
  iter new_value = Returned [] →
  _check_type new_value = Returned true ∧
  _coerce_value new_value = Returned _default_value.
Proof.
  intros H. split.
  - apply _check_type_true_iff. split.
    + apply iter_Iterable. eauto.
    + exists []. split; [exact H | constructor].
  - unfold _coerce_value, frozenset. rewrite H. reflexivity.
Qed.

Lemma empty_iterable_is_accepted_witness :
  _check_type (PyBytes []) = Returned true ∧
  _coerce_value (PyBytes []) = Returned _default_value.
Proof. apply (empty_iterable_is_accepted (PyBytes [])). reflexivity. Defined.

(** X10: the three view operations agree with each other: [__len__] is
    the number of items [__iter__] yields, [__iter__] yields no item
    twice, and for a hashable element [__contains__] returns [True]
    exactly when [__iter__] yields it; for an unhashable element
    [__contains__] raises [TypeError]. *)
Theorem view_operations_agree (self : RiakSet) :
  __len__ self = List.length (__iter__ self) ∧
  NoDup (__iter__ self) ∧
  (∀ x, __contains__ self x = Returned true → x ∈ __iter__ self) ∧
  (∀ x, hashable x = true →
        (__contains__ self x = Returned true ↔ x ∈ __iter__ self) ∧
        (__contains__ self x = Returned false ↔ x ∉ __iter__ self)) ∧
  (∀ x, hashable x = false → ∃ msg, __contains__ self x = Raised (TypeError msg)).
Proof.
  unfold __len__, __iter__, __contains__.
  split; [reflexivity | ]. split; [apply NoDup_elements | ]. split; [ | split].
  - intros x H. destruct (hashable x); [ | done]. injection H as H.
    apply bool_decide_eq_true in H. by apply elem_of_elements.
  - intros x H. rewrite H. rewrite elem_of_elements. split; split.
    + intros [= Hb]. by apply bool_decide_eq_true in Hb.
    + intros Hx. by rewrite bool_decide_eq_true_2.
    + intros [= Hb]. by apply bool_decide_eq_false in Hb.
    + intros Hx. by rewrite bool_decide_eq_false_2.
  - intros x H. rewrite H. eauto.
Qed.
